(** * Shallow embedding of the immutable todo engine (src/src/models/TodoManager.ts),
      of its SQLite persistence (src/src/services/DatabaseManager.ts), of the
      command layer (src/src/cli/commands.ts) and of the application loop
      (src/unnamed/part_001). *)

From Stdlib Require Import ZArith.
From stdpp Require Import base list strings sorting gmap.

Open Scope Z_scope.

(** ** Types.ts *)

(** [interface Todo]; [description: Optional<string>] is [option string]. The
    spread in [updateTodo] can also leave [title] or [completed] holding
    [undefined] (its [newData] may carry a present key whose value is
    [undefined]), so these two fields are optional as well: [None] is
    [undefined]. *)
Record Todo := mkTodo {
  id : Z;
  title : option string;
  description : option string;
  completed : option bool
}.

(** [Result<T, E>]: [{success: true; value}] or [{success: false; error}]. *)
Inductive Result (T E : Type) : Type :=
| Success (value : T)
| Failure (error : E).
Arguments Success {T E} value.
Arguments Failure {T E} error.

(** [{ ...todo, id: k }] *)
Definition with_id (todo : Todo) (k : Z) : Todo :=
  {| id := k; title := title todo; description := description todo;
     completed := completed todo |}.

(** [{ ...todo, completed: b }] *)
Definition with_completed (todo : Todo) (b : bool) : Todo :=
  {| id := id todo; title := title todo; description := description todo;
     completed := Some b |}.

(** The truthiness of [todo.completed] in [if (todo.completed)]: only [true]
    is truthy, [false] and [undefined] are not. *)
Definition completed_truthy (todo : Todo) : bool :=
  match completed todo with Some true => true | _ => false end.

(** ** TodoManager.ts *)

(** The private state of a [TodoManager] instance. *)
Record TodoManager := mkManager {
  todos : list Todo;
  nextId : Z
}.

(** [static consolidateIds(todos)]:
    [todos.map((todo, index) => ({ ...todo, id: index + 1 }))]. *)
Definition consolidateIds (todos : list Todo) : list Todo :=
  imap (fun index todo => with_id todo (Z.of_nat index + 1)) todos.

(** [constructor(todos, nextId)]: the only way a [TodoManager] is built. *)
Definition new_TodoManager (todos : list Todo) (nextId : Z) : TodoManager :=
  {| todos := consolidateIds todos; nextId := nextId |}.

(** [new TodoManager(todos)]: the default argument [nextId: number = 1]. *)
Definition new_TodoManager_default (todos : list Todo) : TodoManager :=
  new_TodoManager todos 1.

(** [Array.prototype.findIndex]; [None] stands for the [-1] result. *)
Fixpoint findIndex (p : Todo -> bool) (l : list Todo) : option nat :=
  match l with
  | [] => None
  | t :: l' => if p t then Some 0%nat else S <$> findIndex p l'
  end.

(** [Array.prototype.find]; [None] stands for [undefined]. *)
Fixpoint find (p : Todo -> bool) (l : list Todo) : option Todo :=
  match l with
  | [] => None
  | t :: l' => if p t then Some t else find p l'
  end.

(** [addTodo(title, description?)] *)
Definition addTodo (m : TodoManager) (title : string) (description : option string)
  : TodoManager :=
  let newTodo := {| id := nextId m; title := Some title; description := description;
                    completed := Some false |} in
  new_TodoManager (todos m ++ [newTodo]) (nextId m + 1).

(** [getTodos()] *)
Definition getTodos (m : TodoManager) : list Todo := todos m.

(** [getTodoById(id)] *)
Definition getTodoById (m : TodoManager) (id0 : Z) : Result Todo string :=
  match find (fun t => id t =? id0) (todos m) with
  | None => Failure "Todo not found"
  | Some todo => Success todo
  end.

(** [markCompleted(id)] *)
Definition markCompleted (m : TodoManager) (id0 : Z) : Result TodoManager string :=
  match findIndex (fun t => id t =? id0) (todos m) with
  | None => Failure "Todo not found"
  | Some index =>
      match todos m !! index with
      | None => Failure "Todo not found" (* not reached: findIndex returned a valid index *)
      | Some todo =>
          if completed_truthy todo then Failure "Todo already completed"
          else
            let updatedTodo := with_completed todo true in
            let newTodos := take index (todos m) ++ [updatedTodo]
                            ++ drop (S index) (todos m) in
            Success (new_TodoManager newTodos (nextId m))
      end
  end.

(** [Math.max(...xs)] on a non-empty array; the empty case ([-Infinity]) is
    guarded out by the caller. *)
Definition Math_max (xs : list Z) : Z :=
  match xs with
  | [] => 0
  | x :: xs' => foldl Z.max x xs'
  end.

(** [removeTodo(id)] *)
Definition removeTodo (m : TodoManager) (id0 : Z) : Result TodoManager string :=
  match findIndex (fun t => id t =? id0) (todos m) with
  | None => Failure "Todo not found"
  | Some index =>
      let remainingTodos := take index (todos m) ++ drop (S index) (todos m) in
      let renumberedTodos :=
        imap (fun i todo => with_id todo (Z.of_nat i + 1)) remainingTodos in
      let newNextId :=
        if (0 <? length renumberedTodos)%nat
        then Math_max (map id renumberedTodos) + 1 else 1 in
      Success (new_TodoManager renumberedTodos newNextId)
  end.

(** [newData: Omit<Partial<Todo>, 'id'>]: each key absent ([None]) or present
    ([Some v]); a present key may hold [undefined] ([Some None]), which
    [Partial] admits for every field and [handleTodoUpdate] sends for a blank
    title or description. *)
Record TodoPatch := mkPatch {
  patch_title : option (option string);
  patch_description : option (option string);
  patch_completed : option (option bool)
}.

(** [{ ...oldTodo, ...newData }] *)
Definition spread (oldTodo : Todo) (newData : TodoPatch) : Todo :=
  {| id := id oldTodo;
     title := default (title oldTodo) (patch_title newData);
     description := default (description oldTodo) (patch_description newData);
     completed := default (completed oldTodo) (patch_completed newData) |}.

(** [updateTodo(id, newData)]; the result is built by [new TodoManager(newTodos)]. *)
Definition updateTodo (m : TodoManager) (id0 : Z) (newData : TodoPatch)
  : Result TodoManager string :=
  match findIndex (fun t => id t =? id0) (todos m) with
  | None => Failure "Todo not found"
  | Some index =>
      match todos m !! index with
      | None => Failure "Todo not found" (* not reached: findIndex returned a valid index *)
      | Some oldTodo =>
          let updatedTodo := spread oldTodo newData in
          let newTodos := take index (todos m) ++ [updatedTodo]
                          ++ drop (S index) (todos m) in
          Success (new_TodoManager_default newTodos)
      end
  end.

(** ** DatabaseManager.ts *)

(** A row of [todos (id INTEGER PRIMARY KEY, title TEXT, description TEXT,
    completed BOOLEAN)], whose columns are nullable; [None] is [NULL].
    bun:sqlite binds [true]/[false] as [1]/[0] and [undefined] as [NULL]. *)
Record Row := mkRow {
  row_id : Z;
  row_title : option string;
  row_description : string;
  row_completed : option Z
}.

(** The [todos] table, its rows kept in rowid (= [id]) order, the order in
    which [SELECT * FROM todos] scans them; [None] while the table does not
    exist yet. *)
Definition Database := option (list Row).

(** [INSERT OR REPLACE INTO todos ...] on the primary key [id]. *)
Fixpoint insert_or_replace (r : Row) (rows : list Row) : list Row :=
  match rows with
  | [] => [r]
  | r' :: rows' =>
      if row_id r <? row_id r' then r :: rows
      else if row_id r =? row_id r' then r :: rows'
      else r' :: insert_or_replace r rows'
  end.

(** The bound values of one insert: [todo.description || ...] binds the empty string when the description is absent or empty. *)
Definition todoToRow (todo : Todo) : Row :=
  {| row_id := id todo;
     row_title := title todo;
     row_description := match description todo with Some s => s | None => EmptyString end;
     row_completed := match completed todo with
                      | Some true => Some 1
                      | Some false => Some 0
                      | None => None
                      end |}.

(** The body of [getTodos().forEach(todo => ...)]: one [INSERT OR REPLACE]. *)
Definition save_step (rows : list Row) (todo : Todo) : list Row :=
  insert_or_replace (todoToRow todo) rows.

(** [toSqlite(todoManager)]: [CREATE TABLE IF NOT EXISTS], then one
    [INSERT OR REPLACE] per todo, in one transaction; the statements cannot
    fail in this model, so the result is the committed database. *)
Definition toSqlite (database : Database) (todoManager : TodoManager)
  : Result Database string :=
  let table := default [] database in
  Success (Some (foldl save_step table (getTodos todoManager))).

(** [{ id: row.id, title: row.title, description: row.description || undefined,
       completed: !!row.completed }]; a [NULL] title reads back as [null],
    which this model does not tell apart from [undefined]; [!!] maps [NULL]
    and [0] to [false]. *)
Definition rowToTodo (row : Row) : Todo :=
  {| id := row_id row;
     title := row_title row;
     description := if String.eqb (row_description row) EmptyString then None
                    else Some (row_description row);
     completed := Some (match row_completed row with
                        | Some c => negb (c =? 0)
                        | None => false
                        end) |}.

(** [fromSqlite()]: [SELECT * FROM todos], then [new TodoManager(todos)]. *)
Definition fromSqlite (database : Database) : Result TodoManager string :=
  match database with
  | None => Failure "Database load failed: no such table: todos"
  | Some rows => Success (new_TodoManager_default (map rowToTodo rows))
  end.

(** A well-formed [todos] table as the saves leave it: rows strictly ordered
    by their primary key, every id positive. *)
Definition table_ok (rows : list Row) : Prop :=
  StronglySorted (fun a b => row_id a < row_id b) rows /\
  Forall (fun r => 1 <= row_id r) rows.

(** ** The engine's operations as a transition system *)

Inductive Op :=
| OpAdd (title : string) (description : option string)
| OpUpdate (id0 : Z) (newData : TodoPatch)
| OpComplete (id0 : Z)
| OpRemove (id0 : Z).

Definition applyOp (m : TodoManager) (op : Op) : Result TodoManager string :=
  match op with
  | OpAdd t d => Success (addTodo m t d)
  | OpUpdate i p => updateTodo m i p
  | OpComplete i => markCompleted m i
  | OpRemove i => removeTodo m i
  end.

(** Collections reachable from any constructed one by successful operations. *)
Inductive reachable : TodoManager -> Prop :=
| reach_create (ts : list Todo) (n : Z) : reachable (new_TodoManager ts n)
| reach_step (m : TodoManager) (op : Op) (m' : TodoManager) :
    reachable m -> applyOp m op = Success m' -> reachable m'.

(** Ids in sequence order are [1, 2, ..., N]: the record at index [i] has id [i + 1]. *)
Definition dense_list (l : list Todo) : Prop :=
  forall (i : nat) (t : Todo), l !! i = Some t -> id t = Z.of_nat i + 1.

Definition dense (m : TodoManager) : Prop := dense_list (todos m).

(** The bound [nextId >= N + 1] of invariant I2. *)
Definition nextId_ok (m : TodoManager) : Prop :=
  Z.of_nat (length (todos m)) + 1 <= nextId m.

(** ** cli/commands.ts *)

(** [promptForTodoId(manager, action)]: [null] when the collection is empty
    (nothing is read then); otherwise [parseInt] of the line read, [null]
    when that is [NaN]. The console input is the parameter [parsedId]: the
    value [parseInt] returns, [None] for [NaN]. *)
Definition promptForTodoId (manager : TodoManager) (parsedId : option Z) : option Z :=
  if (length (getTodos manager) =? 0)%nat then None else parsedId.

(** [handleTodoRemove(manager)] *)
Definition handleTodoRemove (manager : TodoManager) (parsedId : option Z)
  : Result TodoManager string :=
  match promptForTodoId manager parsedId with
  | None => Failure "No valid ID provided"
  | Some id0 => removeTodo manager id0
  end.

(** [handleCompleteTodo(manager)] *)
Definition handleCompleteTodo (manager : TodoManager) (parsedId : option Z)
  : Result TodoManager string :=
  match promptForTodoId manager parsedId with
  | None => Failure "No valid ID provided"
  | Some id0 => markCompleted manager id0
  end.

(** [interface CommandSchema] *)
Record CommandSchema := mkSchema {
  command : string;
  aliases : list string
}.

(** [allowedCommands] *)
Definition allowedCommands : list CommandSchema := [
  mkSchema "add" ["create"; "+"];
  mkSchema "view" ["list"; "ls"];
  mkSchema "update" ["edit"; "modify"];
  mkSchema "complete" ["done"; "finish"];
  mkSchema "remove" ["delete"; "rm"];
  mkSchema "help" ["?"; "h"];
  mkSchema "quit" ["exit"; "e"; "q"];
  mkSchema "save" ["persist"; "store"];
  mkSchema "load" ["import"; "get"]
].

(** The [commandMap.set(key, value)] calls made by [allowedCommands.forEach],
    in the order they are made: the command itself, then its aliases. *)
Definition commandMap_sets : list (string * string) :=
  concat (map (fun cmd => (command cmd, command cmd)
                          :: map (fun alias => (alias, command cmd)) (aliases cmd))
              allowedCommands).

(** [commandMap]: the [Map] after those calls; a later [set] of a key
    overwrites the earlier value. [commandMap.get(k)] is [commandMap !! k]. *)
Definition commandMap : gmap string string :=
  foldl (fun m kv => <[fst kv := snd kv]> m) ∅ commandMap_sets.

(** The functions the registry's [handler] fields hold. *)
Inductive HandlerKind :=
| HTodoCreation | HView | HTodoUpdate | HCompleteTodo | HTodoRemove
| HToSqlite | HFromSqlite | HExit.

(** [interface CommandConfig]; an absent optional flag is [false]. The texts
    that are only printed ([successMessage], [description], [usage]) are
    left out. *)
Record CommandConfig := mkConfig {
  handler : option HandlerKind;
  requiresConfirmation : bool;
  confirmationMessage : option string;
  modifiesState : bool;
  isDatabaseCommand : bool;
  isQuitCommand : bool
}.

(** [commandRegistry[command]] on the object's own keys. *)
Definition commandRegistry (command : string) : option CommandConfig :=
  if String.eqb command "add" then
    Some (mkConfig (Some HTodoCreation) false None true false false)
  else if String.eqb command "view" then
    Some (mkConfig (Some HView) false None false false false)
  else if String.eqb command "update" then
    Some (mkConfig (Some HTodoUpdate) false None true false false)
  else if String.eqb command "complete" then
    Some (mkConfig (Some HCompleteTodo) false None true false false)
  else if String.eqb command "remove" then
    Some (mkConfig (Some HTodoRemove) true
            (Some "Are you sure you want to remove a todo?") true false false)
  else if String.eqb command "save" then
    Some (mkConfig (Some HToSqlite) true
            (Some "This will overwrite the existing database. Continue?") false true false)
  else if String.eqb command "load" then
    Some (mkConfig (Some HFromSqlite) true
            (Some "This will overwrite the current todos. Continue?") true true false)
  else if String.eqb command "help" then
    Some (mkConfig None false None false false false)
  else if String.eqb command "quit" then
    Some (mkConfig (Some HExit) false None false false true)
  else None.

(** ** app (src/unnamed/part_001) *)

(** The [value] of a handler's successful result: a [TodoManager] (what
    [instanceof TodoManager] recognises), the [Database] that [toSqlite]
    returns, or [undefined]. *)
Inductive HandlerValue :=
| VTodoManager (m : TodoManager)
| VDatabase (db : Database)
| VUndefined.

(** A handler returning [Result<TodoManager, string>]. *)
Definition asHandlerResult (r : Result TodoManager string) : Result HandlerValue string :=
  match r with
  | Success m => Success (VTodoManager m)
  | Failure e => Failure e
  end.

(** JavaScript truthiness of an optional string. *)
Definition truthy (s : option string) : bool :=
  match s with
  | Some s' => negb (String.eqb s' EmptyString)
  | None => false
  end.

(** [executeCommand(command, config, todoManager, dbManager)]. The console
    input is passed in: [confirmed] is what [confirmAction] returns and
    [handlerResult] what the handler returns; each is used only on the path
    where the source calls it. [dbManager] is returned unchanged on every
    path and is left out. *)
Definition executeCommand (command : string) (config : CommandConfig)
    (todoManager : TodoManager) (confirmed : bool)
    (handlerResult : Result HandlerValue string)
  : Result (TodoManager * bool) string :=
  if isQuitCommand config then Success (todoManager, false)
  else if requiresConfirmation config && truthy (confirmationMessage config)
          && negb confirmed then Success (todoManager, true)
  else match handler config with
       | Some _ =>
           match handlerResult with
           | Success v =>
               let todoManager' :=
                 if modifiesState config then
                   match v with VTodoManager m => m | _ => todoManager end
                 else todoManager in
               Success (todoManager', true)
           | Failure e => Failure e
           end
       | None => Success (todoManager, true)
       end.

(** [commandHandler(command, todoManager, dbManager)] *)
Definition commandHandler (command : string) (todoManager : TodoManager)
    (confirmed : bool) (handlerResult : Result HandlerValue string)
  : Result (TodoManager * bool) string :=
  match commandRegistry command with
  | None => Failure "Unknown command"
  | Some config => executeCommand command config todoManager confirmed handlerResult
  end.

(** [enum ErrorType] *)
Inductive ErrorType := USER_ERROR | SYSTEM_ERROR.

(** [String.prototype.includes]: some suffix of [s] starts with [pattern]. *)
Fixpoint includes (s pattern : string) : bool :=
  String.prefix pattern s ||
  match s with
  | EmptyString => false
  | String _ s' => includes s' pattern
  end.

Definition userErrorPatterns : list string := [
  "Unknown command"; "Invalid command"; "Please enter a valid command";
  "No valid ID provided"; "Todo not found"; "Todo already completed";
  "Title cannot be empty"; "No changes made"; "No todos available"
].

(** [classifyError(error)] *)
Definition classifyError (error : string) : ErrorType :=
  if existsb (fun pattern => includes error pattern) userErrorPatterns
  then USER_ERROR else SYSTEM_ERROR.

(** The variables of [RunApp] the loop updates. *)
Record AppState := mkApp {
  app_todoManager : TodoManager;
  retryCount : Z;
  isRunning : bool
}.

Definition MAX_RETRIES : Z := 3.

(** One pass through the body of [RunApp]'s [while (isRunning)] loop.
    [action] is the line read, after [.trim()]; [confirmed] and
    [handlerResult] are the console input of [commandHandler] (see
    [executeCommand]). *)
Definition runStep (action : string) (confirmed : bool)
    (handlerResult : Result HandlerValue string) (s : AppState) : AppState :=
  if String.eqb action EmptyString then s
  else match commandMap !! action with
       | None => s
       | Some command =>
           match commandHandler command (app_todoManager s) confirmed handlerResult with
           | Success (newTodoManager, continueRunning) =>
               mkApp newTodoManager 0 continueRunning
           | Failure errorMessage =>
               match classifyError errorMessage with
               | USER_ERROR => s
               | SYSTEM_ERROR =>
                   let retryCount' := retryCount s + 1 in
                   mkApp (app_todoManager s) retryCount'
                         (if retryCount' >? MAX_RETRIES then false else isRunning s)
               end
           end
       end.

(** The states [RunApp] passes through: it starts with [retryCount = 0] and
    [isRunning = true], and runs the loop body while [isRunning] holds. *)
Inductive app_reachable : AppState -> Prop :=
| app_start (tm : TodoManager) : app_reachable (mkApp tm 0 true)
| app_step (s : AppState) (action : string) (confirmed : bool)
    (handlerResult : Result HandlerValue string) :
    app_reachable s -> isRunning s = true ->
    app_reachable (runStep action confirmed handlerResult s).

(** A string without the space character (code 32). *)
Fixpoint no_space (s : string) : bool :=
  match s with
  | EmptyString => true
  | String c s' => negb (Ascii.eqb c (Ascii.ascii_of_nat 32)) && no_space s'
  end.

(** Ordinary todo used in the concrete runs below. *)
Definition todo_of (k : Z) (t : string) (c : bool) : Todo :=
  {| id := k; title := Some t; description := None; completed := Some c |}.

(** A collection built from records with arbitrary ids, as after a load:
    [a] (pending) and [b] (completed), renumbered to ids 1 and 2, nextId 1. *)
Definition sample0 : TodoManager :=
  new_TodoManager [todo_of 7 "a" false; todo_of 3 "b" true] 1.

(** Three pending records [a], [b], [c] with ids 1, 2, 3 and nextId 4. *)
Definition sample1 : TodoManager :=
  new_TodoManager [todo_of 1 "a" false; todo_of 2 "b" false; todo_of 3 "c" false] 4.

Example run_scenario2 :
  match removeTodo (addTodo (addTodo (new_TodoManager [] 1) "Buy milk" None)
                            "Clean house" None) 1 with
  | Success m => map id (todos (addTodo m "X" None)) = [1; 2]
                 /\ nextId (addTodo m "X" None) = 3
  | Failure _ => False
  end.
Proof. vm_compute. auto. Qed.

Example run_update_nextId :
  match updateTodo (addTodo (new_TodoManager [] 1) "a" None) 1
          (mkPatch (Some (Some "b")) None None) with
  | Success m => nextId m = 1
  | Failure _ => False
  end.
Proof. vm_compute. auto. Qed.

(** ** Lemmas on the embedding *)

Section FindIndex.
Variable p : Todo -> bool.

Lemma findIndex_Some (l : list Todo) (i : nat) :
  findIndex p l = Some i -> exists t, l !! i = Some t /\ p t = true.
Proof.
  revert i. induction l as [|t l IH]; intros i H; simpl in H; [discriminate|].
  destruct (p t) eqn:Hp.
  - injection H as <-. eauto.
  - destruct (findIndex p l) as [j|] eqn:Hj; simpl in H; [|discriminate].
    injection H as <-. simpl. auto.
Qed.

Lemma findIndex_None (l : list Todo) :
  findIndex p l = None -> forall i t, l !! i = Some t -> p t = false.
Proof.
  induction l as [|t l IH]; intros H i u Hu; [discriminate|].
  simpl in H. destruct (p t) eqn:Hp; [discriminate|].
  destruct (findIndex p l) eqn:Hj; simpl in H; [discriminate|].
  destruct i as [|i]; simpl in Hu; [congruence|]. eauto.
Qed.
End FindIndex.

Lemma with_id_same (t : Todo) : with_id t (id t) = t.
Proof. by destruct t. Qed.

Lemma lookup_consolidateIds (l : list Todo) (i : nat) :
  consolidateIds l !! i = (fun t => with_id t (Z.of_nat i + 1)) <$> l !! i.
Proof. unfold consolidateIds. apply list_lookup_imap. Qed.

Lemma length_consolidateIds (l : list Todo) : length (consolidateIds l) = length l.
Proof. apply length_imap. Qed.

Lemma consolidateIds_dense (l : list Todo) : dense_list (consolidateIds l).
Proof.
  intros i t H. rewrite lookup_consolidateIds in H.
  destruct (l !! i); simpl in H; [|discriminate]. by injection H as <-.
Qed.

Lemma consolidateIds_id (l : list Todo) : dense_list l -> consolidateIds l = l.
Proof.
  intros Hd. apply list_eq. intros i. rewrite lookup_consolidateIds.
  destruct (l !! i) as [t|] eqn:Ht; simpl; [|done].
  rewrite <- (Hd i t Ht), with_id_same. done.
Qed.

Lemma new_TodoManager_dense (ts : list Todo) (n : Z) : dense (new_TodoManager ts n).
Proof. apply consolidateIds_dense. Qed.

(** In a dense list, [findIndex] on an id finds the record at index [id - 1]. *)
Lemma findIndex_dense_Some (l : list Todo) (id0 : Z) (index : nat) :
  dense_list l -> findIndex (fun t => id t =? id0) l = Some index ->
  exists t, l !! index = Some t /\ id t = id0 /\ id0 = Z.of_nat index + 1.
Proof.
  intros Hd H. destruct (findIndex_Some _ _ _ H) as (t & Ht & Hp).
  apply Z.eqb_eq in Hp. exists t. repeat split; auto.
  rewrite <- Hp. eauto.
Qed.

Lemma findIndex_found (l : list Todo) (id0 : Z) (i : nat) (t : Todo) :
  dense_list l -> l !! i = Some t -> id t = id0 ->
  findIndex (fun t => id t =? id0) l = Some i.
Proof.
  intros Hd Ht Hid.
  destruct (findIndex (fun t => id t =? id0) l) as [j|] eqn:Hj.
  - destruct (findIndex_dense_Some _ _ _ Hd Hj) as (u & Hu & Huid & Hj').
    pose proof (Hd i t Ht). f_equal. lia.
  - pose proof (findIndex_None _ _ Hj i t Ht) as Hf.
    apply Z.eqb_neq in Hf. congruence.
Qed.

Lemma findIndex_absent (l : list Todo) (id0 : Z) :
  (forall i t, l !! i = Some t -> id t <> id0) ->
  findIndex (fun t => id t =? id0) l = None.
Proof.
  intros Habs. destruct (findIndex _ l) as [j|] eqn:Hj; [|done].
  destruct (findIndex_Some _ _ _ Hj) as (t & Ht & Hp).
  apply Z.eqb_eq in Hp. exfalso. eapply Habs; eauto.
Qed.

(** Writing one element in place: [[...l.slice(0, i), x, ...l.slice(i + 1)]]. *)
Lemma splice_insert (l : list Todo) (i : nat) (x : Todo) :
  (i < length l)%nat -> take i l ++ [x] ++ drop (S i) l = <[i:=x]> l.
Proof. intros H. symmetry. by apply insert_take_drop. Qed.

Lemma dense_insert (l : list Todo) (i : nat) (x : Todo) :
  dense_list l -> id x = Z.of_nat i + 1 -> dense_list (<[i:=x]> l).
Proof.
  intros Hd Hx j t Hj. destruct (decide (i = j)) as [->|Hne].
  - apply list_lookup_insert_Some in Hj. naive_solver.
  - rewrite list_lookup_insert_ne in Hj; auto.
Qed.

Lemma applyOp_constructed (m : TodoManager) (op : Op) (m' : TodoManager) :
  applyOp m op = Success m' -> exists ts n, m' = new_TodoManager ts n.
Proof.
  destruct op; simpl;
    unfold updateTodo, markCompleted, removeTodo, new_TodoManager_default;
    intros Hop; repeat case_match; try discriminate;
    injection Hop as <-; eauto.
Qed.

(** Rewriting one record of a dense list in place keeps its id. *)
Lemma splice_consolidate (l : list Todo) (i : nat) (t x : Todo) :
  dense_list l -> l !! i = Some t -> id x = id t ->
  consolidateIds (take i l ++ [x] ++ drop (S i) l) = <[i:=x]> l.
Proof.
  intros Hd Ht Hx. rewrite splice_insert by (eapply lookup_lt_Some; eauto).
  apply consolidateIds_id, dense_insert; [done|]. rewrite Hx. eauto.
Qed.

Lemma markCompleted_found (ts : list Todo) (n : Z) (i : nat) (t : Todo) :
  todos (new_TodoManager ts n) !! i = Some t ->
  markCompleted (new_TodoManager ts n) (id t) =
    if completed_truthy t then Failure "Todo already completed"
    else Success {| todos := <[i := with_completed t true]> (todos (new_TodoManager ts n));
                    nextId := n |}.
Proof.
  intros Ht. pose proof (new_TodoManager_dense ts n) as Hd.
  unfold markCompleted. rewrite (findIndex_found _ _ i t Hd Ht eq_refl), Ht.
  destruct (completed_truthy t); [done|].
  unfold new_TodoManager at 1. simpl todos.
  rewrite (splice_consolidate _ i t); [done|exact Hd|exact Ht|done].
Qed.

Lemma updateTodo_found (ts : list Todo) (n : Z) (i : nat) (t : Todo) (p : TodoPatch) :
  todos (new_TodoManager ts n) !! i = Some t ->
  updateTodo (new_TodoManager ts n) (id t) p =
    Success {| todos := <[i := spread t p]> (todos (new_TodoManager ts n)); nextId := 1 |}.
Proof.
  intros Ht. pose proof (new_TodoManager_dense ts n) as Hd.
  unfold updateTodo. rewrite (findIndex_found _ _ i t Hd Ht eq_refl), Ht.
  unfold new_TodoManager_default, new_TodoManager at 1. simpl todos.
  rewrite (splice_consolidate _ i t); [done|exact Hd|exact Ht|done].
Qed.

Lemma absent_findIndex (l : list Todo) (id0 : Z) :
  Forall (fun t => id t <> id0) l -> findIndex (fun t => id t =? id0) l = None.
Proof.
  intros Hf. apply findIndex_absent. intros i t Ht.
  exact (Forall_lookup_1 (fun t => id t <> id0) l i t Hf Ht).
Qed.

(** ** C1: dense ids *)

(** C1. Dense-id invariant: in every collection reachable from a constructed
    one by successful add, update, complete and remove operations, the record
    at index [i] has id [i + 1], so the ids in sequence order are [1..N]. *)
Theorem reachable_dense (m : TodoManager) : reachable m -> dense m.
Proof.
  induction 1 as [ts n | m op m' _ _ Hop].
  - apply new_TodoManager_dense.
  - destruct (applyOp_constructed _ _ _ Hop) as (ts & n & ->).
    apply new_TodoManager_dense.
Qed.

Lemma reachable_dense_witness :
  let m := addTodo sample0 "c" None in reachable m /\ dense m.
Proof.
  assert (Hr : reachable (addTodo sample0 "c" None)).
  { eapply reach_step with (op := OpAdd "c" None); [apply reach_create|reflexivity]. }
  split; [exact Hr|]. apply (reachable_dense _ Hr).
Defined.

(** ** C3: update and nextId *)

(** C3 (failing input). After [addTodo] on an empty collection nextId is 2;
    a successful [updateTodo(1, {title})] keeps every id but returns a
    collection whose nextId is 1, because it is built by
    [new TodoManager(newTodos)] without the current nextId. *)
Lemma updateTodo_resets_nextId :
  let m := addTodo (new_TodoManager [] 1) "Buy milk" None in
  nextId m = 2 /\
  match updateTodo m 1 (mkPatch (Some (Some "Buy bread")) None None) with
  | Success m' => map id (todos m') = map id (todos m) /\ nextId m' = 1
  | Failure _ => False
  end.
Proof. vm_compute. auto. Qed.

(** ** C4: update merges the supplied fields *)




(** ** C5: complete *)

(** C5. [markCompleted(id)] fails with "Todo not found" when no record has the
    id, fails with "Todo already completed" when that record is completed,
    and otherwise returns the same records with only that record's completed
    flag set, ids unchanged and nextId preserved. A failure carries no
    collection, and the input collection is a value left as it was. *)
Theorem markCompleted_spec (ts : list Todo) (n id0 : Z) :
  let m := new_TodoManager ts n in
  (Forall (fun t => id t <> id0) (todos m) ->
     markCompleted m id0 = Failure "Todo not found") /\
  (forall (i : nat) (t : Todo), todos m !! i = Some t -> id t = id0 ->
     completed t = Some true -> markCompleted m id0 = Failure "Todo already completed") /\
  (forall (i : nat) (t : Todo), todos m !! i = Some t -> id t = id0 ->
     completed t <> Some true ->
     markCompleted m id0 =
       Success {| todos := <[i := with_completed t true]> (todos m);
                  nextId := nextId m |}).
Proof.
  simpl. split; [|split].
  - intros Hf. unfold markCompleted. by rewrite absent_findIndex.
  - intros i t Ht <- Hc. rewrite (markCompleted_found ts n i t Ht).
    unfold completed_truthy. by rewrite Hc.
  - intros i t Ht <- Hc. rewrite (markCompleted_found ts n i t Ht).
    unfold completed_truthy. by destruct (completed t) as [[]|].
Qed.

Lemma markCompleted_spec_witness :
  markCompleted sample0 5 = Failure "Todo not found" /\
  markCompleted sample0 2 = Failure "Todo already completed" /\
  markCompleted sample0 1 =
    Success {| todos := <[0%nat := with_completed (todo_of 1 "a" false) true]>
                          (todos sample0);
               nextId := 1 |}.
Proof.
  destruct (markCompleted_spec [todo_of 7 "a" false; todo_of 3 "b" true] 1 5)
    as [Hnf _].
  destruct (markCompleted_spec [todo_of 7 "a" false; todo_of 3 "b" true] 1 2)
    as [_ [Hdone _]].
  destruct (markCompleted_spec [todo_of 7 "a" false; todo_of 3 "b" true] 1 1)
    as [_ [_ Hok]].
  split; [|split].
  - apply Hnf. repeat constructor; vm_compute; congruence.
  - exact (Hdone 1%nat (todo_of 2 "b" true) eq_refl eq_refl eq_refl).
  - exact (Hok 0%nat (todo_of 1 "a" false) eq_refl eq_refl ltac:(discriminate)).
Defined.

(** ** Math.max *)

Lemma foldl_max_ge (xs : list Z) (acc : Z) :
  acc <= foldl Z.max acc xs /\ Forall (fun x => x <= foldl Z.max acc xs) xs.
Proof.
  revert acc. induction xs as [|x xs IH]; intros acc; simpl.
  - split; [lia|constructor].
  - destruct (IH (Z.max acc x)) as [H1 H2]. split; [lia|].
    constructor; [lia|exact H2].
Qed.

Lemma foldl_max_In (xs : list Z) (acc : Z) : In (foldl Z.max acc xs) (acc :: xs).
Proof.
  revert acc. induction xs as [|x xs IH]; intros acc; simpl; [auto|].
  destruct (IH (Z.max acc x)) as [Heq|Hin]; [|auto].
  rewrite <- Heq. destruct (Z.max_spec acc x) as [[_ ->]|[_ ->]]; auto.
Qed.

Lemma Math_max_ge (xs : list Z) : Forall (fun x => x <= Math_max xs) xs.
Proof.
  destruct xs as [|x xs]; [constructor|]. simpl.
  destruct (foldl_max_ge xs x). by constructor.
Qed.

Lemma Math_max_In (xs : list Z) : xs <> [] -> In (Math_max xs) xs.
Proof. destruct xs as [|x xs]; [congruence|]. intros _. apply foldl_max_In. Qed.

Lemma dense_In_bound (l : list Todo) (u : Todo) :
  dense_list l -> In u l -> 1 <= id u <= Z.of_nat (length l).
Proof.
  intros Hd Hin. apply list_elem_of_In, list_elem_of_lookup in Hin as [i Hi].
  rewrite (Hd i u Hi). apply lookup_lt_Some in Hi. lia.
Qed.

Lemma dense_last (l : list Todo) :
  dense_list l -> l <> [] -> exists u, In u l /\ id u = Z.of_nat (length l).
Proof.
  intros Hd Hne. destruct (lookup_lt_is_Some_2 l (length l - 1)) as [u Hu].
  { destruct l; [congruence|simpl; lia]. }
  exists u. split; [apply list_elem_of_In; by eapply list_elem_of_lookup_2|].
  rewrite (Hd _ u Hu). destruct l; [congruence|simpl; lia].
Qed.

(** ** remove *)

Lemma removeTodo_found (ts : list Todo) (n : Z) (i : nat) (t : Todo) :
  todos (new_TodoManager ts n) !! i = Some t ->
  removeTodo (new_TodoManager ts n) (id t) =
    let r := consolidateIds (delete i (todos (new_TodoManager ts n))) in
    Success {| todos := r;
               nextId := if (0 <? length r)%nat then Math_max (map id r) + 1 else 1 |}.
Proof.
  intros Ht. pose proof (new_TodoManager_dense ts n) as Hd.
  unfold removeTodo. rewrite (findIndex_found _ _ i t Hd Ht eq_refl).
  rewrite <- delete_take_drop. unfold new_TodoManager at 1. simpl.
  fold (consolidateIds (delete i (consolidateIds ts))).
  rewrite (consolidateIds_id (consolidateIds _)) by apply consolidateIds_dense.
  done.
Qed.

Lemma removeTodo_Success (m m' : TodoManager) (id0 : Z) :
  removeTodo m id0 = Success m' ->
  dense m' /\
  nextId m' = (if (0 <? length (todos m'))%nat then Math_max (map id (todos m')) + 1
               else 1).
Proof.
  unfold removeTodo. intros Hr. case_match; [|discriminate].
  injection Hr as <-. split; [apply new_TodoManager_dense|]. simpl.
  fold (consolidateIds (take n (todos m) ++ drop (S n) (todos m))).
  rewrite (consolidateIds_id (consolidateIds _)) by apply consolidateIds_dense.
  done.
Qed.

(** After a successful remove, nextId is [N + 1]. *)
Lemma removeTodo_nextId (m m' : TodoManager) (id0 : Z) :
  removeTodo m id0 = Success m' -> nextId m' = Z.of_nat (length (todos m')) + 1.
Proof.
  intros Hr. destruct (removeTodo_Success _ _ _ Hr) as [Hd ->].
  destruct (todos m') as [|u l] eqn:Hl; [done|]. simpl (0 <? _)%nat. cbv iota.
  rewrite <- Hl in *. assert (Hne : todos m' <> []) by congruence.
  destruct (dense_last _ Hd Hne) as (v & Hv & Hvid).
  pose proof (Math_max_ge (map id (todos m'))) as Hge.
  pose proof (Math_max_In (map id (todos m'))) as Hin.
  rewrite Forall_forall in Hge.
  specialize (Hge (id v) (proj2 (list_elem_of_In _ _) (in_map id _ _ Hv))).
  assert (Hne' : map id (todos m') <> []) by (rewrite Hl; discriminate).
  destruct (proj1 (in_map_iff _ _ _) (Hin Hne')) as [w [Hw Hwin]].
  pose proof (dense_In_bound _ _ Hd Hwin). simpl. lia.
Qed.

(** The nextId computed by [removeTodo] is one more than the largest id. *)
Lemma max_id_plus_one (r : list Todo) :
  let k := if (0 <? length r)%nat then Math_max (map id r) + 1 else 1 in
  (r = [] -> k = 1) /\
  (r <> [] -> Forall (fun u => id u < k) r /\ exists u, In u r /\ k = id u + 1).
Proof.
  simpl. split; [by intros ->|]. intros Hne.
  destruct r as [|x r']; [congruence|].
  change (0 <? length (x :: r'))%nat with true. cbv iota.
  set (r := x :: r') in *. split.
  - apply Forall_forall. intros u Hu.
    pose proof (Math_max_ge (map id r)) as Hge. rewrite Forall_forall in Hge.
    assert (id u <= Math_max (map id r)); [|lia].
    apply Hge. apply list_elem_of_In, in_map, list_elem_of_In, Hu.
  - assert (Hne' : map id r <> []) by discriminate.
    destruct (proj1 (in_map_iff _ _ _) (Math_max_In _ Hne')) as [w [Hw Hwin]].
    exists w. split; [exact Hwin|lia].
Qed.

(** ** C6: remove *)

(** C6. [removeTodo(id)] fails with "Todo not found" when no record has the
    id; otherwise the record at that index is removed, the records before it
    are unchanged, each record after it moves down one place with its id
    decreased by exactly one (no reordering), and nextId is the largest
    remaining id plus one, or 1 when the collection is now empty. *)
Theorem removeTodo_spec (ts : list Todo) (n id0 : Z) :
  let m := new_TodoManager ts n in
  (Forall (fun t => id t <> id0) (todos m) ->
     removeTodo m id0 = Failure "Todo not found") /\
  (forall (i : nat) (t : Todo), todos m !! i = Some t -> id t = id0 ->
     exists m', removeTodo m id0 = Success m' /\
       length (todos m') = (length (todos m) - 1)%nat /\
       (forall j : nat, (j < i)%nat -> todos m' !! j = todos m !! j) /\
       (forall (j : nat) (u : Todo), (i <= j)%nat -> todos m !! S j = Some u ->
          todos m' !! j = Some (with_id u (id u - 1))) /\
       (todos m' = [] -> nextId m' = 1) /\
       (todos m' <> [] ->
          Forall (fun u => id u < nextId m') (todos m') /\
          exists u, In u (todos m') /\ nextId m' = id u + 1)).
Proof.
  simpl. split.
  - intros Hf. unfold removeTodo. by rewrite absent_findIndex.
  - intros i t Ht <-. pose proof (new_TodoManager_dense ts n) as Hd.
    rewrite (removeTodo_found ts n i t Ht). cbv zeta.
    eexists. split; [reflexivity|]. simpl todos. simpl nextId.
    destruct (max_id_plus_one (consolidateIds (delete i (consolidateIds ts))))
      as [Hk1 Hk2].
    split; [|split; [|split; [|split]]].
    + rewrite length_consolidateIds. apply length_delete. by exists t.
    + intros j Hj. rewrite lookup_consolidateIds, list_lookup_delete_lt by done.
      destruct (consolidateIds ts !! j) as [u|] eqn:Hu; simpl; [|done].
      rewrite <- (Hd j u Hu), with_id_same. done.
    + intros j u Hj Hu. rewrite lookup_consolidateIds, list_lookup_delete_ge by done.
      rewrite Hu. simpl. rewrite (Hd (S j) u Hu). do 2 f_equal. lia.
    + exact Hk1.
    + exact Hk2.
Qed.

Lemma removeTodo_spec_witness :
  removeTodo sample1 9 = Failure "Todo not found" /\
  exists m', removeTodo sample1 2 = Success m' /\
    length (todos m') = (length (todos sample1) - 1)%nat /\
    (forall j : nat, (j < 1)%nat -> todos m' !! j = todos sample1 !! j) /\
    (forall (j : nat) (u : Todo), (1 <= j)%nat -> todos sample1 !! S j = Some u ->
       todos m' !! j = Some (with_id u (id u - 1))) /\
    (todos m' = [] -> nextId m' = 1) /\
    (todos m' <> [] ->
       Forall (fun u => id u < nextId m') (todos m') /\
       exists u, In u (todos m') /\ nextId m' = id u + 1).
Proof.
  pose (ts := [todo_of 1 "a" false; todo_of 2 "b" false; todo_of 3 "c" false]).
  destruct (removeTodo_spec ts 4 9) as [Hnf _].
  destruct (removeTodo_spec ts 4 2) as [_ Hok].
  split.
  - apply Hnf. repeat constructor; vm_compute; congruence.
  - exact (Hok 1%nat (todo_of 2 "b" false) eq_refl eq_refl).
Defined.

(** ** add *)

Lemma addTodo_todos (m : TodoManager) (t : string) (d : option string) :
  dense m ->
  todos (addTodo m t d) =
    todos m ++ [{| id := Z.of_nat (length (todos m)) + 1; title := Some t;
                   description := d; completed := Some false |}].
Proof.
  intros Hd. unfold addTodo, new_TodoManager. simpl todos.
  unfold consolidateIds at 1. rewrite imap_app. fold (consolidateIds (todos m)).
  rewrite consolidateIds_id by exact Hd. simpl. rewrite Nat.add_0_r. done.
Qed.

Lemma addTodo_nextId (m : TodoManager) (t : string) (d : option string) :
  nextId (addTodo m t d) = nextId m + 1.
Proof. done. Qed.

Lemma addTodo_dense (m : TodoManager) (t : string) (d : option string) :
  dense (addTodo m t d).
Proof. apply new_TodoManager_dense. Qed.

(** ** C7: add *)

(** C7 (counterexample). After a load, nextId is 1 while the collection has
    two records; [addTodo] appends a record whose id is 3, not nextId. *)
Lemma addTodo_id_not_nextId :
  nextId sample0 = 1 /\
  last (todos (addTodo sample0 "c" None)) =
    Some {| id := 3; title := Some "c"; description := None; completed := Some false |}.
Proof. vm_compute. auto. Qed.

(** C7 (amended). [addTodo(title, description)] always succeeds: it appends
    one pending record with the given title and description and the id
    [N + 1] (its position) at the end, keeps the other records, and advances
    nextId by exactly 1; two adds in a row append the ids [N + 1] and
    [N + 2]. *)
Theorem addTodo_appends (ts : list Todo) (n : Z) (t1 t2 : string)
    (d1 d2 : option string) :
  let m := new_TodoManager ts n in
  let N := length (todos m) in
  todos (addTodo m t1 d1) =
    todos m ++ [{| id := Z.of_nat N + 1; title := Some t1; description := d1;
                   completed := Some false |}] /\
  nextId (addTodo m t1 d1) = nextId m + 1 /\
  map id (todos (addTodo (addTodo m t1 d1) t2 d2)) =
    map id (todos m) ++ [Z.of_nat N + 1; Z.of_nat N + 2].
Proof.
  cbv zeta. pose proof (new_TodoManager_dense ts n) as Hd.
  split; [exact (addTodo_todos _ t1 d1 Hd)|split; [done|]].
  rewrite (addTodo_todos (addTodo _ t1 d1)) by apply addTodo_dense.
  rewrite (addTodo_todos _ t1 d1) by exact Hd.
  rewrite !map_app, length_app. simpl. rewrite <- app_assoc. simpl.
  do 3 f_equal. lia.
Qed.

(** ** C9: the appended record's id is positional *)

(** C9. The record appended by [addTodo] is stored with id [N + 1], where
    [N] is the previous size, whatever the collection's nextId is; when
    nextId differs from [N + 1] the stored id differs from nextId. *)
Theorem addTodo_positional_id (ts : list Todo) (n : Z) (t : string)
    (d : option string) :
  let m := new_TodoManager ts n in
  let N := length (todos m) in
  todos (addTodo m t d) !! N =
    Some {| id := Z.of_nat N + 1; title := Some t; description := d; completed := Some false |} /\
  (nextId m <> Z.of_nat N + 1 ->
     id <$> todos (addTodo m t d) !! N <> Some (nextId m)).
Proof.
  cbv zeta. rewrite (addTodo_todos _ t d) by apply new_TodoManager_dense.
  rewrite lookup_app_r, Nat.sub_diag by lia. simpl.
  split; [done|]. intros Hne Heq. injection Heq. lia.
Qed.

Lemma addTodo_positional_id_witness :
  todos (addTodo sample0 "c" None) !! 2%nat =
    Some {| id := 3; title := Some "c"; description := None; completed := Some false |} /\
  id <$> todos (addTodo sample0 "c" None) !! 2%nat <> Some 1.
Proof.
  destruct (addTodo_positional_id [todo_of 7 "a" false; todo_of 3 "b" true] 1 "c" None)
    as [Hlast Hne].
  split; [exact Hlast|]. apply Hne. vm_compute. congruence.
Defined.

(** ** C2: nextId *)

Lemma markCompleted_Success (m m' : TodoManager) (id0 : Z) :
  markCompleted m id0 = Success m' ->
  nextId m' = nextId m /\ length (todos m') = length (todos m).
Proof.
  unfold markCompleted. intros Hc.
  destruct (findIndex _ (todos m)) as [i|] eqn:Hf; [|discriminate].
  destruct (todos m !! i) as [t|] eqn:Ht; [|discriminate].
  destruct (completed_truthy t); [discriminate|]. injection Hc as <-.
  unfold new_TodoManager. cbn [todos nextId].
  split; [done|]. apply lookup_lt_Some in Ht.
  rewrite length_consolidateIds, length_app, length_take. simpl length.
  rewrite length_drop. lia.
Qed.

(** C2 (counterexample). A collection constructed from two loaded records
    without an explicit nextId has nextId 1, below [N + 1 = 3]. *)
Lemma create_nextId_below_size :
  nextId sample0 < Z.of_nat (length (todos sample0)) + 1.
Proof. vm_compute. reflexivity. Qed.

(** C2 (amended). The constructor takes nextId as given; [addTodo] advances
    it by exactly 1 and [markCompleted] keeps it, so both preserve
    [nextId >= N + 1]; [removeTodo] recomputes it as the largest remaining id
    plus one (1 when empty), which is exactly [N + 1]. *)
Theorem nextId_transitions (ts : list Todo) (n : Z) (t : string) (d : option string) :
  let m := new_TodoManager ts n in
  nextId m = n /\
  nextId (addTodo m t d) = nextId m + 1 /\
  (forall (id0 : Z) (m' : TodoManager), markCompleted m id0 = Success m' ->
     nextId m' = nextId m /\ length (todos m') = length (todos m)) /\
  (forall (id0 : Z) (m' : TodoManager), removeTodo m id0 = Success m' ->
     nextId m' = (if (0 <? length (todos m'))%nat
                  then Math_max (map id (todos m')) + 1 else 1) /\
     nextId m' = Z.of_nat (length (todos m')) + 1) /\
  (nextId_ok m ->
     nextId_ok (addTodo m t d) /\
     forall (id0 : Z) (m' : TodoManager), markCompleted m id0 = Success m' ->
       nextId_ok m').
Proof.
  cbv zeta. pose proof (new_TodoManager_dense ts n) as Hd.
  split; [done|split; [done|split; [|split]]].
  - intros id0 m'. apply markCompleted_Success.
  - intros id0 m' Hr. split.
    + exact (proj2 (removeTodo_Success _ _ _ Hr)).
    + exact (removeTodo_nextId _ _ _ Hr).
  - unfold nextId_ok. intros Hok. split.
    + rewrite (addTodo_todos _ t d Hd), length_app, addTodo_nextId. cbn [length]. lia.
    + intros id0 m' Hc. destruct (markCompleted_Success _ _ _ Hc) as [-> ->].
      exact Hok.
Qed.

Lemma nextId_transitions_witness :
  let m := sample1 in
  nextId m = 4 /\
  nextId (addTodo m "d" None) = nextId m + 1 /\
  (nextId (match markCompleted m 1 with Success m' => m' | Failure _ => m end)
     = nextId m) /\
  (nextId (match removeTodo m 2 with Success m' => m' | Failure _ => m end) = 3) /\
  nextId_ok (addTodo m "d" None).
Proof.
  pose (ts := [todo_of 1 "a" false; todo_of 2 "b" false; todo_of 3 "c" false]).
  destruct (nextId_transitions ts 4 "d" None) as (H0 & Hadd & Hcomp & Hrem & Hok).
  cbv zeta. split; [exact H0|split; [exact Hadd|split; [|split]]].
  - destruct (markCompleted sample1 1) as [m'|] eqn:Hc; [|done].
    exact (proj1 (Hcomp 1 m' Hc)).
  - destruct (removeTodo sample1 2) as [m'|] eqn:Hr; [|discriminate].
    rewrite (proj2 (Hrem 2 m' Hr)).
    revert Hr. vm_compute. intros Hr. injection Hr as <-. reflexivity.
  - apply (proj1 (Hok ltac:(vm_compute; discriminate))).
Defined.

(** ** C10: default nextId *)

(** C10. Without an explicit argument the constructor sets nextId to 1 for
    any records; a collection loaded from a table with [N > 0] rows has
    nextId 1, below [N + 1]. *)
Theorem default_nextId_is_one (ts : list Todo) (rows : list Row) (m : TodoManager) :
  nextId (new_TodoManager_default ts) = 1 /\
  (rows <> [] -> fromSqlite (Some rows) = Success m ->
     nextId m = 1 /\ nextId m < Z.of_nat (length (todos m)) + 1).
Proof.
  split; [done|]. intros Hne Hl. simpl in Hl. injection Hl as <-.
  simpl. rewrite length_consolidateIds, length_map.
  destruct rows; [congruence|]. simpl. lia.
Qed.

Lemma default_nextId_is_one_witness :
  let rows := [mkRow 1 (Some "a") EmptyString (Some 0); mkRow 2 (Some "b") "x" (Some 1)] in
  nextId (new_TodoManager_default []) = 1 /\
  nextId (match fromSqlite (Some rows) with Success m => m | Failure _ => sample0 end) = 1.
Proof.
  pose (rows := [mkRow 1 (Some "a") EmptyString (Some 0); mkRow 2 (Some "b") "x" (Some 1)]).
  destruct (default_nextId_is_one [] rows
              (new_TodoManager_default (map rowToTodo rows))) as [H0 H1].
  split; [exact H0|]. cbv zeta. simpl fromSqlite. cbv iota.
  exact (proj1 (H1 ltac:(discriminate) eq_refl)).
Defined.

(** ** C8: save then load *)

Lemma filter_all (P : Row -> Prop) `{!forall x, Decision (P x)} (l : list Row) :
  Forall P l -> filter P l = l.
Proof.
  induction 1 as [|x l Hx _ IH]; [done|].
  rewrite filter_cons_True by exact Hx. by rewrite IH.
Qed.

Lemma Forall_filter_row (P Q : Row -> Prop) `{!forall x, Decision (P x)} (l : list Row) :
  Forall Q l -> Forall Q (filter P l).
Proof.
  induction 1 as [|x l Hx _ IH]; [constructor|].
  rewrite filter_cons. case_decide; [by constructor|done].
Qed.

Lemma sorted_filter (P : Row -> Prop) `{!forall x, Decision (P x)} (l : list Row) :
  StronglySorted (fun a b => row_id a < row_id b) l ->
  StronglySorted (fun a b => row_id a < row_id b) (filter P l).
Proof.
  induction l as [|x l IH]; intros Hs; [constructor|].
  apply StronglySorted_cons in Hs as [Hx Hs].
  rewrite filter_cons. case_decide; [|by apply IH].
  apply StronglySorted_cons. split; [by apply Forall_filter_row|by apply IH].
Qed.

Lemma insert_or_replace_prefix (P rest : list Row) (r : Row) :
  Forall (fun x => row_id x < row_id r) P ->
  insert_or_replace r (P ++ rest) = P ++ insert_or_replace r rest.
Proof.
  induction 1 as [|x P Hx _ IH]; [done|]. simpl.
  destruct (Z.ltb_spec (row_id r) (row_id x)); [lia|].
  destruct (Z.eqb_spec (row_id r) (row_id x)); [lia|]. by rewrite IH.
Qed.

(** Inserting the row with id [k + 1] into a sorted table whose ids all
    exceed [k]: it lands in front, replacing a row with the same id. *)
Lemma insert_or_replace_front (rest : list Row) (r : Row) (k : Z) :
  row_id r = k + 1 ->
  StronglySorted (fun a b => row_id a < row_id b) rest ->
  Forall (fun x => k < row_id x) rest ->
  insert_or_replace r rest = r :: filter (fun x => k + 1 < row_id x) rest.
Proof.
  intros Hr Hs Hk. destruct rest as [|x rest']; [done|].
  apply StronglySorted_cons in Hs as [Hx Hs']. apply Forall_cons in Hk as [Hkx _].
  assert (Hall : Forall (fun y => k + 1 < row_id y) rest').
  { eapply Forall_impl; [exact Hx|]. intros y Hy. simpl in Hy. lia. }
  simpl. rewrite filter_cons.
  destruct (Z.ltb_spec (row_id r) (row_id x)).
  - rewrite decide_True by lia. by rewrite filter_all.
  - destruct (Z.eqb_spec (row_id r) (row_id x)); [|lia].
    rewrite decide_False by lia. by rewrite filter_all.
Qed.

Lemma save_fold (l : list Todo) (k : Z) (P rest : list Row) :
  (forall (i : nat) (t : Todo), l !! i = Some t -> id t = k + Z.of_nat i + 1) ->
  Forall (fun x => row_id x <= k) P ->
  StronglySorted (fun a b => row_id a < row_id b) rest ->
  Forall (fun x => k < row_id x) rest ->
  foldl save_step (P ++ rest) l =
    P ++ map todoToRow l ++ filter (fun x => k + Z.of_nat (length l) < row_id x) rest.
Proof.
  revert k P rest. induction l as [|t l IH]; intros k P rest Hl HP Hs Hk; simpl.
  - rewrite filter_all; [done|]. eapply Forall_impl; [exact Hk|]. intros x Hx. simpl in *. lia.
  - assert (Ht : id t = k + 1) by (rewrite (Hl 0%nat t eq_refl); lia).
    unfold save_step at 2.
    rewrite insert_or_replace_prefix.
    2:{ eapply Forall_impl; [exact HP|]. intros x Hx. simpl in *. lia. }
    rewrite (insert_or_replace_front rest _ k) by done.
    replace (P ++ todoToRow t :: filter (fun x => k + 1 < row_id x) rest)
      with ((P ++ [todoToRow t]) ++ filter (fun x => k + 1 < row_id x) rest)
      by (rewrite <- app_assoc; done).
    rewrite (IH (k + 1)).
    + rewrite <- app_assoc. simpl. do 3 f_equal.
      rewrite list_filter_filter_l; [|intros x Hx; lia].
      apply list_filter_iff. intros x. lia.
    + intros i u Hu. rewrite (Hl (S i) u Hu). lia.
    + apply Forall_app. split.
      * eapply Forall_impl; [exact HP|]. intros x Hx. simpl in *. lia.
      * constructor; [simpl; lia|constructor].
    + by apply sorted_filter.
    + apply Forall_forall. intros x Hx.
      apply list_elem_of_filter in Hx as [Hx _]. exact Hx.
Qed.


(** C8 (failing input). Save three records [a], [b], [c] to a new database,
    remove the record with id 2 (so [c] becomes id 2), save again and load:
    the second save replaces rows 1 and 2 but never deletes row 3, so the load
    gives [a], [c], [c] where the collection saved holds [a], [c]. *)
Lemma save_remove_save_duplicates :
  let m3 := addTodo (addTodo (addTodo (new_TodoManager [] 1) "a" None) "b" None) "c" None in
  match toSqlite None m3 with
  | Success db1 =>
      match removeTodo m3 2 with
      | Success m2 =>
          map title (todos m2) = [Some "a"; Some "c"] /\
          match toSqlite db1 m2 with
          | Success db2 =>
              match fromSqlite db2 with
              | Success m' => map title (todos m') = [Some "a"; Some "c"; Some "c"]
              | Failure _ => False
              end
          | Failure _ => False
          end
      | Failure _ => False
      end
  | Failure _ => False
  end.
Proof. vm_compute. auto. Qed.



(** ** Further properties of the engine *)

Lemma reachable_constructed (m : TodoManager) :
  reachable m -> exists ts n, m = new_TodoManager ts n.
Proof.
  induction 1 as [ts n | m op m' _ _ Hop]; [eauto|].
  exact (applyOp_constructed _ _ _ Hop).
Qed.

Lemma reachable_dense_list (m : TodoManager) : reachable m -> dense_list (todos m).
Proof.
  intros Hr. destruct (reachable_constructed _ Hr) as (ts & n & ->).
  apply new_TodoManager_dense.
Qed.

Lemma find_findIndex (p : Todo -> bool) (l : list Todo) :
  find p l = match findIndex p l with Some i => l !! i | None => None end.
Proof.
  induction l as [|t l IH]; simpl; [done|].
  destruct (p t); [done|]. rewrite IH. by destruct (findIndex p l).
Qed.

(** On a dense collection, [getTodoById(k)] reads index [k - 1]. *)
Lemma getTodoById_dense (m : TodoManager) (k : Z) :
  dense m ->
  getTodoById m k =
    match (if 1 <=? k then todos m !! Z.to_nat (k - 1) else None) with
    | Some t => Success t
    | None => Failure "Todo not found"
    end.
Proof.
  intros Hd. unfold getTodoById. rewrite find_findIndex.
  destruct (findIndex (fun t => id t =? k) (todos m)) as [i|] eqn:Hi.
  - destruct (findIndex_dense_Some _ _ _ Hd Hi) as (t & Ht & Hid & Hk).
    rewrite Ht, (proj2 (Z.leb_le 1 k)) by lia.
    replace (Z.to_nat (k - 1)) with i by lia. by rewrite Ht.
  - destruct (1 <=? k) eqn:Hk; [|done].
    destruct (todos m !! Z.to_nat (k - 1)) as [t|] eqn:Ht; [|done].
    apply Z.leb_le in Hk. pose proof (Hd _ t Ht) as Hid.
    pose proof (findIndex_None _ _ Hi _ t Ht) as Hf. apply Z.eqb_neq in Hf. lia.
Qed.

Lemma getTodoById_at (m : TodoManager) (i : nat) (u : Todo) :
  dense m -> todos m !! i = Some u -> getTodoById m (id u) = Success u.
Proof.
  intros Hd Hu. unfold getTodoById. rewrite find_findIndex.
  by rewrite (findIndex_found _ _ i u Hd Hu eq_refl), Hu.
Qed.

Lemma markCompleted_at_completed (m : TodoManager) (i : nat) (u : Todo) :
  dense m -> todos m !! i = Some u -> completed u = Some true ->
  markCompleted m (id u) = Failure "Todo already completed".
Proof.
  intros Hd Hu Hc. unfold markCompleted.
  rewrite (findIndex_found _ _ i u Hd Hu eq_refl), Hu.
  unfold completed_truthy. by rewrite Hc.
Qed.

Lemma spread_empty (t : Todo) : spread t (mkPatch None None None) = t.
Proof. by destruct t. Qed.

Lemma consolidateIds_fields {B : Type} (g : Todo -> B) (l : list Todo) :
  (forall t k, g (with_id t k) = g t) -> map g (consolidateIds l) = map g l.
Proof.
  intros Hg.
  assert (Hf : forall f : nat -> Z,
             map g (imap (fun i t => with_id t (f i)) l) = map g l).
  { induction l as [|t l IH]; intros f; [done|]. simpl.
    rewrite Hg. f_equal. apply (IH (fun i => f (S i))). }
  apply (Hf (fun index => Z.of_nat index + 1)).
Qed.

(** ** Persistence: the table after a save *)

Lemma insert_or_replace_elem (r x : Row) (rows : list Row) :
  In x (insert_or_replace r rows) -> x = r \/ In x rows.
Proof.
  induction rows as [|r' rows IH]; simpl.
  - intros [<-|[]]. auto.
  - destruct (row_id r <? row_id r'); [simpl; intuition|].
    destruct (row_id r =? row_id r'); simpl; [intuition|].
    intros [<-|Hx]; [auto|]. destruct (IH Hx); auto.
Qed.

Lemma insert_or_replace_sorted (r : Row) (rows : list Row) :
  StronglySorted (fun a b => row_id a < row_id b) rows ->
  StronglySorted (fun a b => row_id a < row_id b) (insert_or_replace r rows).
Proof.
  induction rows as [|r' rows IH]; intros Hs; simpl.
  - repeat constructor.
  - apply StronglySorted_cons in Hs as [Hr' Hs].
    destruct (Z.ltb_spec (row_id r) (row_id r')).
    + constructor; [by constructor|]. constructor; [lia|].
      eapply Forall_impl; [exact Hr'|]. intros x Hx. simpl in *. lia.
    + destruct (Z.eqb_spec (row_id r) (row_id r')).
      * constructor; [exact Hs|].
        eapply Forall_impl; [exact Hr'|]. intros x Hx. simpl in *. lia.
      * constructor; [by apply IH|]. apply Forall_forall. intros x Hx.
        apply list_elem_of_In, insert_or_replace_elem in Hx as [->|Hx]; [lia|].
        rewrite Forall_forall in Hr'. apply Hr', list_elem_of_In, Hx.
Qed.

Lemma insert_or_replace_pos (r : Row) (rows : list Row) :
  1 <= row_id r -> Forall (fun x => 1 <= row_id x) rows ->
  Forall (fun x => 1 <= row_id x) (insert_or_replace r rows).
Proof.
  intros Hr Hrows. apply Forall_forall. intros x Hx.
  apply list_elem_of_In, insert_or_replace_elem in Hx as [->|Hx]; [exact Hr|].
  rewrite Forall_forall in Hrows. apply Hrows, list_elem_of_In, Hx.
Qed.

Lemma save_table_ok (table : list Row) (l : list Todo) :
  table_ok table -> Forall (fun t => 1 <= id t) l -> table_ok (foldl save_step table l).
Proof.
  revert table. induction l as [|t l IH]; intros table [Hs Hp] Hl; [by split|].
  apply Forall_cons in Hl as [Ht Hl]. simpl. apply IH; [|exact Hl].
  split; [by apply insert_or_replace_sorted|by apply insert_or_replace_pos].
Qed.

(** Inserting a row the table already holds changes nothing. *)
Lemma insert_or_replace_present (r : Row) (rows : list Row) :
  StronglySorted (fun a b => row_id a < row_id b) rows -> r ∈ rows ->
  insert_or_replace r rows = rows.
Proof.
  induction rows as [|x rows IH]; intros Hs Hr; [by inversion Hr|].
  apply StronglySorted_cons in Hs as [Hx Hs]. simpl.
  apply elem_of_cons in Hr as [->|Hr].
  - by rewrite Z.ltb_irrefl, Z.eqb_refl.
  - rewrite Forall_forall in Hx. pose proof (Hx r Hr) as Hlt. simpl in Hlt.
    destruct (Z.ltb_spec (row_id r) (row_id x)); [lia|].
    destruct (Z.eqb_spec (row_id r) (row_id x)); [lia|]. by rewrite IH.
Qed.

Lemma save_present (table : list Row) (l : list Todo) :
  StronglySorted (fun a b => row_id a < row_id b) table ->
  Forall (fun t => todoToRow t ∈ table) l ->
  foldl save_step table l = table.
Proof.
  intros Hs. induction 1 as [|t l Ht _ IH]; [done|]. simpl.
  unfold save_step at 2. by rewrite insert_or_replace_present.
Qed.

Lemma dense_pos (l : list Todo) : dense_list l -> Forall (fun t => 1 <= id t) l.
Proof.
  intros Hd. apply Forall_lookup_2. intros i t Ht. rewrite (Hd i t Ht). lia.
Qed.

(** The table a save of a dense collection leaves: its rows, then the old rows
    above its size. *)
Lemma save_dense (l : list Todo) (table : list Row) :
  dense_list l -> table_ok table ->
  foldl save_step table l =
    map todoToRow l ++ filter (fun x => Z.of_nat (length l) < row_id x) table.
Proof.
  intros Hd [Hs Hp].
  pose proof (save_fold l 0 [] table) as HF. simpl app in HF. rewrite HF.
  - reflexivity.
  - intros i t Ht. rewrite (Hd i t Ht). lia.
  - constructor.
  - exact Hs.
  - eapply Forall_impl; [exact Hp|]. intros x Hx. simpl in *. lia.
Qed.

(** ** The command layer and the application loop *)

Lemma foldl_insert_lookup (l : list (string * string)) (m0 : gmap string string)
    (k v : string) :
  foldl (fun m kv => <[fst kv := snd kv]> m) m0 l !! k = Some v ->
  m0 !! k = Some v \/ (k, v) ∈ l.
Proof.
  revert m0. induction l as [|[k' v'] l IH]; intros m0 H; simpl in H; [auto|].
  destruct (IH _ H) as [H'|H']; [|right; by apply elem_of_cons; right].
  apply lookup_insert_Some in H' as [[-> ->]|[_ H']];
    [right; by apply elem_of_cons; left|auto].
Qed.

Lemma commandMap_Some (k v : string) :
  commandMap !! k = Some v -> (k, v) ∈ commandMap_sets.
Proof.
  intros H. destruct (foldl_insert_lookup _ _ _ _ H) as [H'|H']; [|exact H'].
  by rewrite lookup_empty in H'.
Qed.

Lemma commandMap_sets_ok :
  Forall (fun kv => no_space (fst kv) = true /\ is_Some (commandRegistry (snd kv)))
         commandMap_sets.
Proof.
  assert (H1 : Forall (fun kv => no_space (fst kv) = true) commandMap_sets).
  { assert (Hb : forallb (fun kv => no_space (fst kv)) commandMap_sets = true)
      by (vm_compute; reflexivity).
    apply Forall_forall. intros kv Hkv.
    exact (proj1 (forallb_forall _ _) Hb kv (proj1 (list_elem_of_In _ _) Hkv)). }
  assert (H2 : Forall (fun kv => is_Some (commandRegistry (snd kv))) commandMap_sets)
    by (apply (bool_decide_unpack (Forall (fun kv => is_Some (commandRegistry (snd kv)))
                                            commandMap_sets)); vm_compute; exact I).
  apply Forall_and. split; [exact H1|exact H2].
Qed.

Lemma commandMap_empty : commandMap !! EmptyString = None.
Proof. vm_compute. reflexivity. Qed.

Lemma no_space_app (a b : string) : no_space (a ++ " " ++ b)%string = false.
Proof.
  induction a as [|c a IH]; [reflexivity|]. simpl. rewrite IH. apply andb_false_r.
Qed.

Lemma commandMap_action (action command : string) :
  commandMap !! action = Some command -> String.eqb action EmptyString = false.
Proof.
  intros H. destruct (String.eqb_spec action EmptyString) as [->|]; [|done].
  by rewrite commandMap_empty in H.
Qed.

(** Every error the engine and the id-reading handlers return. *)
Lemma engine_error_cases (m : TodoManager) (k : Z) (p : TodoPatch)
    (parsedId : option Z) (e : string) :
  markCompleted m k = Failure e \/ removeTodo m k = Failure e \/
  updateTodo m k p = Failure e \/ getTodoById m k = Failure e \/
  handleTodoRemove m parsedId = Failure e \/ handleCompleteTodo m parsedId = Failure e ->
  e = "Todo not found" \/ e = "Todo already completed" \/ e = "No valid ID provided".
Proof.
  unfold handleTodoRemove, handleCompleteTodo, markCompleted, removeTodo, updateTodo,
    getTodoById.
  intros [Hf|[Hf|[Hf|[Hf|[Hf|Hf]]]]]; revert Hf; repeat case_match; intros Hf;
    try discriminate; injection Hf as <-; auto.
Qed.

Lemma handler_error_user (m : TodoManager) (parsedId : option Z) (e : string) :
  handleTodoRemove m parsedId = Failure e \/ handleCompleteTodo m parsedId = Failure e ->
  classifyError e = USER_ERROR.
Proof.
  intros H.
  destruct (engine_error_cases m 0 (mkPatch None None None) parsedId e
              ltac:(tauto)) as [He|[He|He]]; rewrite He; vm_compute; reflexivity.
Qed.

(** A failing command that is not [quit] and has a handler, confirmed. *)
Lemma runStep_failure (action command e : string) (config : CommandConfig) (s : AppState) :
  commandMap !! action = Some command -> commandRegistry command = Some config ->
  handler config <> None -> isQuitCommand config = false ->
  runStep action true (Failure e) s =
    match classifyError e with
    | USER_ERROR => s
    | SYSTEM_ERROR =>
        mkApp (app_todoManager s) (retryCount s + 1)
              (if retryCount s + 1 >? MAX_RETRIES then false else isRunning s)
    end.
Proof.
  intros Ha Hreg Hh Hq. unfold runStep.
  rewrite (commandMap_action _ _ Ha), Ha. unfold commandHandler. rewrite Hreg.
  unfold executeCommand. rewrite Hq, andb_false_r.
  destruct (handler config); [done|congruence].
Qed.

(** X1. In every reachable collection of size [N], [getTodoById(k)] returns
    the record at index [k - 1], whose id is [k], when [1 <= k <= N], and
    fails with "Todo not found" for any other [k]. *)
Theorem getTodoById_position (m : TodoManager) :
  reachable m ->
  (forall k, 1 <= k <= Z.of_nat (length (todos m)) ->
     exists t, todos m !! Z.to_nat (k - 1) = Some t /\
               getTodoById m k = Success t /\ id t = k) /\
  (forall k, k < 1 \/ Z.of_nat (length (todos m)) < k ->
     getTodoById m k = Failure "Todo not found").
Proof.
  intros Hr. pose proof (reachable_dense_list _ Hr) as Hd. split.
  - intros k Hk.
    destruct (lookup_lt_is_Some_2 (todos m) (Z.to_nat (k - 1))) as [t Ht]; [lia|].
    exists t. split; [exact Ht|]. split.
    + rewrite getTodoById_dense by exact Hd.
      rewrite (proj2 (Z.leb_le 1 k)) by lia. by rewrite Ht.
    + rewrite (Hd _ t Ht). lia.
  - intros k Hk. rewrite getTodoById_dense by exact Hd.
    destruct (Z.leb_spec 1 k); [|done].
    rewrite lookup_ge_None_2; [done|lia].
Qed.

Lemma getTodoById_position_witness :
  reachable sample1 /\
  exists t, todos sample1 !! Z.to_nat (2 - 1) = Some t /\
            getTodoById sample1 2 = Success t /\ id t = 2.
Proof.
  assert (Hr : reachable sample1) by apply reach_create.
  split; [exact Hr|].
  apply (proj1 (getTodoById_position sample1 Hr) 2). simpl. lia.
Defined.

(** X2. After [addTodo(title, description)] on a reachable collection of
    size [N], [getTodoById(N + 1)] returns the new record (id [N + 1], the
    given title and description, not completed), and every other id is
    looked up exactly as before the add. *)
Theorem addTodo_getTodoById (m : TodoManager) (t : string) (d : option string) :
  reachable m ->
  let N := Z.of_nat (length (todos m)) in
  getTodoById (addTodo m t d) (N + 1) =
    Success {| id := N + 1; title := Some t; description := d; completed := Some false |} /\
  (forall k, k <> N + 1 -> getTodoById (addTodo m t d) k = getTodoById m k).
Proof.
  intros Hr. cbv zeta. pose proof (reachable_dense_list _ Hr) as Hd.
  pose proof (addTodo_dense m t d) as Hd'. split.
  - rewrite getTodoById_dense by exact Hd'. rewrite (addTodo_todos m t d Hd).
    rewrite (proj2 (Z.leb_le 1 _)) by lia.
    replace (Z.to_nat (Z.of_nat (length (todos m)) + 1 - 1)) with (length (todos m)) by lia.
    by rewrite list_lookup_middle by done.
  - intros k Hk. rewrite !getTodoById_dense by assumption.
    rewrite (addTodo_todos m t d Hd).
    destruct (Z.leb_spec 1 k); [|done]. rewrite lookup_app.
    destruct (todos m !! Z.to_nat (k - 1)) eqn:Hl; [done|].
    apply lookup_ge_None_1 in Hl.
    destruct (Z.to_nat (k - 1) - length (todos m))%nat eqn:He; [lia|done].
Qed.

Lemma addTodo_getTodoById_witness :
  reachable sample0 /\
  getTodoById (addTodo sample0 "c" None) (Z.of_nat (length (todos sample0)) + 1) =
    Success {| id := Z.of_nat (length (todos sample0)) + 1; title := Some "c";
               description := None; completed := Some false |}.
Proof.
  assert (Hr : reachable sample0) by apply reach_create.
  split; [exact Hr|]. exact (proj1 (addTodo_getTodoById sample0 "c" None Hr)).
Defined.

(** X3. Completing is one-way: after a successful [markCompleted(k)] on a
    reachable collection, [getTodoById(k)] returns a completed record and a
    second [markCompleted(k)] fails with "Todo already completed". *)
Theorem markCompleted_twice (m m' : TodoManager) (k : Z) :
  reachable m -> markCompleted m k = Success m' ->
  (exists t, getTodoById m' k = Success t /\ completed t = Some true) /\
  markCompleted m' k = Failure "Todo already completed".
Proof.
  intros Hr H. destruct (reachable_constructed _ Hr) as (ts & n & ->).
  pose proof (new_TodoManager_dense ts n) as Hd.
  destruct (findIndex (fun t => id t =? k) (todos (new_TodoManager ts n)))
    as [i|] eqn:Hi.
  2:{ unfold markCompleted in H. rewrite Hi in H. discriminate. }
  destruct (findIndex_dense_Some _ _ _ Hd Hi) as (t & Ht & Hid & Hk). subst k.
  rewrite (markCompleted_found ts n i t Ht) in H.
  destruct (completed_truthy t) eqn:Hc; [discriminate|]. injection H as <-.
  set (L := <[i:=with_completed t true]> (todos (new_TodoManager ts n))).
  assert (Hl : L !! i = Some (with_completed t true))
    by (apply list_lookup_insert_eq; eapply lookup_lt_Some; eauto).
  assert (Hd' : dense_list L) by (apply dense_insert; [exact Hd|simpl; lia]).
  split.
  - exists (with_completed t true). split; [|done].
    exact (getTodoById_at {| todos := L; nextId := n |} i _ Hd' Hl).
  - exact (markCompleted_at_completed {| todos := L; nextId := n |} i _ Hd' Hl eq_refl).
Qed.

Lemma markCompleted_twice_witness :
  reachable sample1 /\ markCompleted sample1 2 = Success (match markCompleted sample1 2 with
                                                          | Success m' => m'
                                                          | Failure _ => sample1 end) /\
  markCompleted (match markCompleted sample1 2 with Success m' => m' | Failure _ => sample1 end) 2
    = Failure "Todo already completed".
Proof.
  assert (Hr : reachable sample1) by apply reach_create.
  assert (Hs : markCompleted sample1 2 = Success (match markCompleted sample1 2 with
                                                  | Success m' => m'
                                                  | Failure _ => sample1 end))
    by (vm_compute; reflexivity).
  split; [exact Hr|]. split; [exact Hs|].
  exact (proj2 (markCompleted_twice sample1 _ 2 Hr Hs)).
Defined.

(** X4. Adding a record and then removing it by its id [N + 1] gives back
    the original records, with nextId [N + 1]. *)
Theorem addTodo_removeTodo (m : TodoManager) (t : string) (d : option string) :
  reachable m ->
  exists m', removeTodo (addTodo m t d) (Z.of_nat (length (todos m)) + 1) = Success m' /\
             todos m' = todos m /\ nextId m' = Z.of_nat (length (todos m)) + 1.
Proof.
  intros Hr. pose proof (reachable_dense_list _ Hr) as Hd.
  set (x := {| id := Z.of_nat (length (todos m)) + 1; title := Some t; description := d;
               completed := Some false |}).
  assert (Hx : todos (addTodo m t d) !! length (todos m) = Some x).
  { rewrite (addTodo_todos m t d Hd). by apply list_lookup_middle. }
  unfold addTodo in Hx |- *. fold x in Hx.
  pose proof (removeTodo_found _ _ _ _ Hx) as Hrm. cbv zeta in Hrm.
  change (id x) with (Z.of_nat (length (todos m)) + 1) in Hrm.
  eexists. split; [exact Hrm|].
  assert (Hdel : consolidateIds (delete (length (todos m))
            (todos (new_TodoManager (todos m ++ [{| id := nextId m; title := Some t;
                 description := d; completed := Some false |}]) (nextId m + 1)))) = todos m).
  { change (todos (new_TodoManager ?l ?n)) with (todos (addTodo m t d)).
    rewrite (addTodo_todos m t d Hd). fold x. rewrite delete_middle, app_nil_r.
    by apply consolidateIds_id. }
  pose proof (removeTodo_nextId _ _ _ Hrm) as Hn.
  split; [exact Hdel|]. rewrite Hn. do 3 f_equal. exact Hdel.
Qed.

Lemma addTodo_removeTodo_witness :
  reachable sample1 /\
  exists m', removeTodo (addTodo sample1 "d" None) (Z.of_nat (length (todos sample1)) + 1)
               = Success m' /\
             todos m' = todos sample1 /\ nextId m' = Z.of_nat (length (todos sample1)) + 1.
Proof.
  assert (Hr : reachable sample1) by apply reach_create.
  split; [exact Hr|]. exact (addTodo_removeTodo sample1 "d" None Hr).
Defined.

(** X5. An [updateTodo(k, {})] that supplies no field either fails with
    "Todo not found" or leaves every record exactly as it was; only nextId
    changes, to 1. *)
Theorem updateTodo_empty_patch (m : TodoManager) (k : Z) :
  reachable m ->
  updateTodo m k (mkPatch None None None) = Failure "Todo not found" \/
  exists m', updateTodo m k (mkPatch None None None) = Success m' /\
             todos m' = todos m /\ nextId m' = 1.
Proof.
  intros Hr. destruct (reachable_constructed _ Hr) as (ts & n & ->).
  pose proof (new_TodoManager_dense ts n) as Hd.
  destruct (findIndex (fun t => id t =? k) (todos (new_TodoManager ts n)))
    as [i|] eqn:Hi.
  - destruct (findIndex_dense_Some _ _ _ Hd Hi) as (t & Ht & Hid & Hk). subst k.
    right. rewrite (updateTodo_found ts n i t _ Ht). eexists. split; [reflexivity|].
    simpl todos. rewrite spread_empty. split; [|done]. by apply list_insert_id.
  - left. unfold updateTodo. by rewrite Hi.
Qed.

Lemma updateTodo_empty_patch_witness :
  reachable sample1 /\
  (updateTodo sample1 2 (mkPatch None None None) = Failure "Todo not found" \/
   exists m', updateTodo sample1 2 (mkPatch None None None) = Success m' /\
              todos m' = todos sample1 /\ nextId m' = 1).
Proof.
  assert (Hr : reachable sample1) by apply reach_create.
  split; [exact Hr|]. exact (updateTodo_empty_patch sample1 2 Hr).
Defined.

(** X6. The constructor only renumbers: the records keep their order and
    each keeps its title, description and completed flag. *)
Theorem new_TodoManager_keeps_fields (ts : list Todo) (n : Z) :
  length (todos (new_TodoManager ts n)) = length ts /\
  map (fun t => (title t, description t, completed t)) (todos (new_TodoManager ts n)) =
    map (fun t => (title t, description t, completed t)) ts.
Proof.
  split; [apply length_consolidateIds|].
  apply consolidateIds_fields. done.
Qed.

(** X7. Saving any reachable collection into a well-formed table (or none
    yet) leaves a well-formed table: rows strictly ordered by id, every id
    positive. *)
Theorem toSqlite_table_ok (m : TodoManager) (db db' : Database) :
  reachable m -> table_ok (default [] db) -> toSqlite db m = Success db' ->
  exists rows, db' = Some rows /\ table_ok rows.
Proof.
  intros Hr Hok H. injection H as <-. eexists. split; [reflexivity|].
  apply save_table_ok; [exact Hok|]. apply dense_pos, reachable_dense_list, Hr.
Qed.

Lemma toSqlite_table_ok_witness :
  reachable sample1 /\ table_ok (default [] (Some [mkRow 2 (Some "y") EmptyString (Some 1)])) /\
  exists rows, Some (foldl save_step [mkRow 2 (Some "y") EmptyString (Some 1)] (todos sample1)) = Some rows
               /\ table_ok rows.
Proof.
  assert (Hr : reachable sample1) by apply reach_create.
  assert (Hok : table_ok (default [] (Some [mkRow 2 (Some "y") EmptyString (Some 1)])))
    by (split; repeat constructor; simpl; lia).
  split; [exact Hr|]. split; [exact Hok|].
  exact (toSqlite_table_ok sample1 _ _ Hr Hok eq_refl).
Defined.

(** X8. Saving is idempotent: saving the same reachable collection a second
    time into the table the first save produced leaves that table unchanged. *)
Theorem toSqlite_idempotent (m : TodoManager) (db db' : Database) :
  reachable m -> table_ok (default [] db) -> toSqlite db m = Success db' ->
  toSqlite db' m = Success db'.
Proof.
  intros Hr Hok H. injection H as <-. pose proof (reachable_dense_list _ Hr) as Hd.
  unfold toSqlite, getTodos. simpl default. do 2 f_equal.
  apply save_present.
  - apply save_table_ok; [exact Hok|]. by apply dense_pos.
  - rewrite save_dense by done. apply Forall_forall. intros t Ht.
    apply elem_of_app. left. apply list_elem_of_In, in_map, list_elem_of_In, Ht.
Qed.

Lemma toSqlite_idempotent_witness :
  reachable sample1 /\ table_ok (default [] (Some [mkRow 7 (Some "z") "w" (Some 0)])) /\
  toSqlite (Some (foldl save_step [mkRow 7 (Some "z") "w" (Some 0)] (todos sample1))) sample1 =
    Success (Some (foldl save_step [mkRow 7 (Some "z") "w" (Some 0)] (todos sample1))).
Proof.
  assert (Hr : reachable sample1) by apply reach_create.
  assert (Hok : table_ok (default [] (Some [mkRow 7 (Some "z") "w" (Some 0)])))
    by (split; repeat constructor; simpl; lia).
  split; [exact Hr|]. split; [exact Hok|].
  exact (toSqlite_idempotent sample1 _ _ Hr Hok eq_refl).
Defined.

(** X9. Every error returned by [markCompleted], [removeTodo], [updateTodo],
    [getTodoById], [handleTodoRemove] and [handleCompleteTodo] is classified
    by [classifyError] as a user error, so none counts toward the retry limit. *)
Theorem engine_errors_are_user_errors (m : TodoManager) (k : Z) (p : TodoPatch)
    (parsedId : option Z) (e : string) :
  markCompleted m k = Failure e \/ removeTodo m k = Failure e \/
  updateTodo m k p = Failure e \/ getTodoById m k = Failure e \/
  handleTodoRemove m parsedId = Failure e \/ handleCompleteTodo m parsedId = Failure e ->
  classifyError e = USER_ERROR.
Proof.
  intros H. destruct (engine_error_cases _ _ _ _ _ H) as [He|[He|He]]; rewrite He;
    vm_compute; reflexivity.
Qed.

Lemma engine_errors_are_user_errors_witness :
  markCompleted sample1 9 = Failure "Todo not found" /\
  classifyError "Todo not found" = USER_ERROR.
Proof.
  assert (H : markCompleted sample1 9 = Failure "Todo not found") by reflexivity.
  split; [exact H|].
  exact (engine_errors_are_user_errors sample1 9 (mkPatch None None None) None _
           (or_introl H)).
Defined.

(** X10. Every value of [commandMap] is a key of [commandRegistry], so
    [commandHandler] never answers "Unknown command" for a line [RunApp]
    accepts; and every command name and alias of [allowedCommands] maps to
    its own command (no alias is overwritten by a later [set]). *)
Theorem commandMap_resolves :
  (forall action command, commandMap !! action = Some command ->
     exists config, commandRegistry command = Some config) /\
  (forall cmd name, cmd ∈ allowedCommands -> name ∈ command cmd :: aliases cmd ->
     commandMap !! name = Some (command cmd)).
Proof.
  split.
  - intros action command H. apply commandMap_Some in H.
    pose proof commandMap_sets_ok as Hok. rewrite Forall_forall in Hok.
    destruct (Hok _ H) as [_ [config Hc]]. by exists config.
  - assert (Hall : Forall (fun cmd => Forall (fun name => commandMap !! name = Some (command cmd))
                                              (command cmd :: aliases cmd)) allowedCommands).
    { apply (bool_decide_unpack (Forall (fun cmd => Forall (fun name =>
                 commandMap !! name = Some (command cmd)) (command cmd :: aliases cmd))
                 allowedCommands)).
      vm_compute. exact I. }
    intros cmd name Hcmd Hname. rewrite Forall_forall in Hall.
    specialize (Hall cmd Hcmd). rewrite Forall_forall in Hall. exact (Hall name Hname).
Qed.

Lemma commandMap_resolves_witness :
  commandMap !! "rm" = Some "remove" /\
  (exists config, commandRegistry "remove" = Some config) /\
  commandMap !! "rm" = Some (command (mkSchema "remove" ["delete"; "rm"])).
Proof.
  assert (H : commandMap !! "rm" = Some "remove") by (vm_compute; reflexivity).
  split; [exact H|]. split.
  - exact (proj1 commandMap_resolves "rm" "remove" H).
  - apply (proj2 commandMap_resolves); [|by right; right; left].
    do 4 right; left.
Defined.

(** X11. A line with a space in it (such as "help add") is neither a command
    name nor an alias: one loop pass leaves the state unchanged, so the
    "help <command>" branch of [handleHelp] is never reached. *)
Theorem runStep_space_rejected (a b : string) (confirmed : bool)
    (handlerResult : Result HandlerValue string) (s : AppState) :
  runStep (a ++ " " ++ b)%string confirmed handlerResult s = s.
Proof.
  unfold runStep. destruct (String.eqb _ EmptyString); [done|].
  destruct (commandMap !! (a ++ " " ++ b)%string) as [command|] eqn:H; [|done].
  exfalso. apply commandMap_Some in H.
  pose proof commandMap_sets_ok as Hok. rewrite Forall_forall in Hok.
  destruct (Hok _ H) as [Hns _]. simpl in Hns. by rewrite no_space_app in Hns.
Qed.

(** X12. The [help] command does nothing: its registry entry has
    [handler: null], so a line that maps to [help] ("help", "?", "h") leaves
    the collection unchanged, keeps the loop running and resets
    [retryCount] to 0, without printing any help. *)
Theorem help_does_nothing (action : string) (confirmed : bool)
    (handlerResult : Result HandlerValue string) (s : AppState) :
  commandMap !! action = Some "help" ->
  runStep action confirmed handlerResult s = mkApp (app_todoManager s) 0 true.
Proof.
  intros Ha. unfold runStep. by rewrite (commandMap_action _ _ Ha), Ha.
Qed.

Lemma help_does_nothing_witness :
  commandMap !! "?" = Some "help" /\
  runStep "?" true (Success VUndefined) (mkApp sample1 2 true) = mkApp sample1 0 true.
Proof.
  assert (H : commandMap !! "?" = Some "help") by (vm_compute; reflexivity).
  split; [exact H|].
  exact (help_does_nothing "?" true (Success VUndefined) (mkApp sample1 2 true) H).
Defined.

(** X13. The commands that do not modify state ([view], [help], [save],
    [quit]) never replace the collection: whatever their handler returns,
    a successful [commandHandler] gives back the collection it was given. *)
Theorem nonmodifying_commands_keep_collection (command : string) (tm tm' : TodoManager)
    (confirmed continueRunning : bool) (handlerResult : Result HandlerValue string) :
  command ∈ ["view"; "help"; "save"; "quit"] ->
  commandHandler command tm confirmed handlerResult = Success (tm', continueRunning) ->
  tm' = tm.
Proof.
  intros Hc. repeat (apply elem_of_cons in Hc as [->|Hc]); [..|by inversion Hc];
    unfold commandHandler, executeCommand; simpl;
    destruct confirmed, handlerResult; simpl; intros H; congruence.
Qed.

Lemma nonmodifying_commands_keep_collection_witness :
  ("view" ∈ ["view"; "help"; "save"; "quit"]) /\
  commandHandler "view" sample1 true (Success (VTodoManager sample0)) = Success (sample1, true) /\
  sample1 = sample1.
Proof.
  assert (Hin : "view" ∈ ["view"; "help"; "save"; "quit"]) by left.
  assert (H : commandHandler "view" sample1 true (Success (VTodoManager sample0))
              = Success (sample1, true)) by reflexivity.
  split; [exact Hin|]. split; [exact H|].
  exact (nonmodifying_commands_keep_collection "view" sample1 sample1 true true _ Hin H).
Defined.

(** X14. [quit] is the only command that stops the loop without an error:
    it returns the collection unchanged with [continueRunning = false]
    before its handler is called; every other successful command returns
    [continueRunning = true]. *)
Theorem only_quit_stops (command : string) (tm tm' : TodoManager) (confirmed : bool)
    (handlerResult : Result HandlerValue string) :
  commandHandler "quit" tm confirmed handlerResult = Success (tm, false) /\
  (commandHandler command tm confirmed handlerResult = Success (tm', false) ->
   command = "quit").
Proof.
  split; [reflexivity|].
  unfold commandHandler, commandRegistry.
  repeat match goal with
         | |- context [String.eqb command ?c] =>
             destruct (String.eqb_spec command c) as [->|?]; [done || (
               unfold executeCommand; simpl;
               destruct confirmed, handlerResult as [[]|]; simpl; intros H;
               congruence)|]
         end.
  intros H; discriminate.
Qed.

Lemma only_quit_stops_witness :
  commandHandler "quit" sample1 true (Success VUndefined) = Success (sample1, false) /\
  "quit" = "quit".
Proof.
  split; [exact (proj1 (only_quit_stops "quit" sample1 sample1 true (Success VUndefined)))|].
  apply (proj2 (only_quit_stops "quit" sample1 sample1 true (Success VUndefined))).
  reflexivity.
Defined.

(** X15. Only [remove], [save] and [load] ask for confirmation; when the
    answer is not "y" each of them returns the collection unchanged and
    keeps the loop running, whatever its handler would have returned. *)
Theorem confirmation_declined :
  (forall command config, commandRegistry command = Some config ->
     requiresConfirmation config = true -> command ∈ ["remove"; "save"; "load"]) /\
  (forall command tm handlerResult, command ∈ ["remove"; "save"; "load"] ->
     commandHandler command tm false handlerResult = Success (tm, true)).
Proof.
  split.
  - intros command config. unfold commandRegistry.
    repeat match goal with
           | |- context [String.eqb command ?c] =>
               destruct (String.eqb_spec command c) as [->|?];
                 [intros H; injection H as <-; simpl; intros Hr;
                  try discriminate; set_solver|]
           end.
    discriminate.
  - intros command tm handlerResult Hc.
    repeat (apply elem_of_cons in Hc as [->|Hc]); [..|by inversion Hc]; reflexivity.
Qed.

Lemma confirmation_declined_witness :
  ("load" ∈ ["remove"; "save"; "load"]) /\
  commandHandler "load" sample1 false (Success (VTodoManager sample0)) = Success (sample1, true).
Proof.
  assert (Hin : "load" ∈ ["remove"; "save"; "load"]) by (right; right; left).
  split; [exact Hin|].
  exact (proj2 confirmation_declined "load" sample1 _ Hin).
Defined.

(** X16. A [remove] or [complete] command never counts toward the retry
    limit: one loop pass either leaves the state unchanged (a user error
    such as "Todo not found") or continues with the new collection and
    [retryCount] reset to 0. *)
Theorem remove_complete_never_retry (action : string) (confirmed : bool)
    (parsedId : option Z) (handlerResult : Result HandlerValue string) (s : AppState) :
  (commandMap !! action = Some "remove" /\
   handlerResult = asHandlerResult (handleTodoRemove (app_todoManager s) parsedId)) \/
  (commandMap !! action = Some "complete" /\
   handlerResult = asHandlerResult (handleCompleteTodo (app_todoManager s) parsedId)) ->
  runStep action confirmed handlerResult s = s \/
  exists tm', runStep action confirmed handlerResult s = mkApp tm' 0 true.
Proof.
  intros [[Ha ->]|[Ha ->]]; unfold runStep; rewrite (commandMap_action _ _ Ha), Ha;
    unfold commandHandler, executeCommand; simpl.
  - destruct confirmed; simpl; [|eauto].
    destruct (handleTodoRemove (app_todoManager s) parsedId) as [m|e] eqn:Hh;
      simpl; [eauto|].
    rewrite (handler_error_user (app_todoManager s) parsedId e (or_introl Hh)). auto.
  - destruct (handleCompleteTodo (app_todoManager s) parsedId) as [m|e] eqn:Hh;
      simpl; [eauto|].
    rewrite (handler_error_user (app_todoManager s) parsedId e (or_intror Hh)). auto.
Qed.

Lemma remove_complete_never_retry_witness :
  commandMap !! "rm" = Some "remove" /\
  (runStep "rm" true (asHandlerResult (handleTodoRemove sample1 (Some 9)))
     (mkApp sample1 2 true) = mkApp sample1 2 true \/
   exists tm', runStep "rm" true (asHandlerResult (handleTodoRemove sample1 (Some 9)))
                 (mkApp sample1 2 true) = mkApp tm' 0 true).
Proof.
  assert (H : commandMap !! "rm" = Some "remove") by (vm_compute; reflexivity).
  split; [exact H|].
  exact (remove_complete_never_retry "rm" true (Some 9) _ (mkApp sample1 2 true)
           (or_introl (conj H eq_refl))).
Defined.

(** X17. Retry bound of [RunApp]: in every state the loop reaches,
    [0 <= retryCount <= 3] (MAX_RETRIES), or [retryCount = 4] and the loop
    has stopped. *)
Theorem app_retry_bound (s : AppState) :
  app_reachable s ->
  (0 <= retryCount s <= MAX_RETRIES) \/
  (retryCount s = MAX_RETRIES + 1 /\ isRunning s = false).
Proof.
  induction 1 as [tm | s action confirmed handlerResult _ IH Hrun].
  - left. simpl. unfold MAX_RETRIES. lia.
  - destruct IH as [Hb|[_ Hf]]; [|congruence].
    unfold runStep. destruct (String.eqb action EmptyString); [by left|].
    destruct (commandMap !! action) as [command|]; [|by left].
    destruct (commandHandler command (app_todoManager s) confirmed handlerResult)
      as [[tm' cont]|e].
    + left. simpl. unfold MAX_RETRIES. lia.
    + destruct (classifyError e); [by left|]. simpl. unfold MAX_RETRIES in *.
      destruct (Z.gtb_spec (retryCount s + 1) 3); [right; split; [lia|done]|left; lia].
Qed.

Lemma app_retry_bound_witness :
  app_reachable (runStep "save" true (Failure "disk I/O error") (mkApp sample1 0 true)) /\
  ((0 <= retryCount (runStep "save" true (Failure "disk I/O error") (mkApp sample1 0 true))
      <= MAX_RETRIES) \/
   (retryCount (runStep "save" true (Failure "disk I/O error") (mkApp sample1 0 true))
      = MAX_RETRIES + 1 /\
    isRunning (runStep "save" true (Failure "disk I/O error") (mkApp sample1 0 true)) = false)).
Proof.
  assert (Hr : app_reachable (runStep "save" true (Failure "disk I/O error")
                                (mkApp sample1 0 true)))
    by (apply app_step; [apply app_start|reflexivity]).
  split; [exact Hr|]. exact (app_retry_bound _ Hr).
Defined.

(** X18. System errors stop the loop on the fourth in a row: from a fresh
    start, three successive passes whose command (one with a handler, other
    than [quit], confirmed) fails with a system error leave [retryCount = 3]
    and the loop running; the fourth sets [retryCount = 4] and stops it,
    with the collection unchanged throughout. *)
Theorem system_errors_stop_loop (action command e : string) (config : CommandConfig)
    (tm : TodoManager) :
  commandMap !! action = Some command -> commandRegistry command = Some config ->
  handler config <> None -> isQuitCommand config = false ->
  classifyError e = SYSTEM_ERROR ->
  let step := runStep action true (Failure e) in
  step (step (step (mkApp tm 0 true))) = mkApp tm 3 true /\
  step (step (step (step (mkApp tm 0 true)))) = mkApp tm 4 false.
Proof.
  intros Ha Hreg Hh Hq He. cbv zeta.
  pose proof (fun s => runStep_failure action command e config s Ha Hreg Hh Hq) as Hs.
  rewrite He in Hs. rewrite !Hs. simpl. split; reflexivity.
Qed.

Lemma system_errors_stop_loop_witness :
  commandMap !! "store" = Some "save" /\
  commandRegistry "save" = Some (mkConfig (Some HToSqlite) true
            (Some "This will overwrite the existing database. Continue?") false true false) /\
  classifyError "Database save failed: disk I/O error" = SYSTEM_ERROR /\
  runStep "store" true (Failure "Database save failed: disk I/O error")
    (runStep "store" true (Failure "Database save failed: disk I/O error")
      (runStep "store" true (Failure "Database save failed: disk I/O error")
        (runStep "store" true (Failure "Database save failed: disk I/O error")
          (mkApp sample1 0 true)))) = mkApp sample1 4 false.
Proof.
  assert (Ha : commandMap !! "store" = Some "save") by (vm_compute; reflexivity).
  assert (Hreg : commandRegistry "save" = Some (mkConfig (Some HToSqlite) true
            (Some "This will overwrite the existing database. Continue?") false true false))
    by reflexivity.
  assert (He : classifyError "Database save failed: disk I/O error" = SYSTEM_ERROR)
    by (vm_compute; reflexivity).
  split; [exact Ha|]. split; [exact Hreg|]. split; [exact He|].
  exact (proj2 (system_errors_stop_loop "store" "save" _ _ sample1 Ha Hreg
                  ltac:(discriminate) eq_refl He)).
Defined.
